(** * recursive.c: mutual recursion between [foo] and [bar]

    A shallow embedding of [src/recursive.c] and the properties of the
    trace it writes to standard output.

    - C [int] is a 32-bit signed integer, carried as a [Z]; every
      arithmetic operator checks its result, because signed overflow is
      undefined behaviour in C.
    - A C function is a computation over a [world] (the heap holding the
      [RecursiveMadness] object and the bytes written to standard output)
      whose outcome is a value and a new world, undefined behaviour, or
      exhaustion of the recursion budget.
    - [printf] appends the formatted text to [stdout]. *)

From Stdlib Require Import ZArith List String Ascii DecimalString Bool Lia.
Import ListNotations.

Local Open Scope Z_scope.

Notation "s1 +++ s2" := (String.append s1 s2)
  (at level 60, right associativity) : string_scope.

(** ** C [int] *)

Module CInt.

Definition INT_MIN : Z := -2147483648.
Definition INT_MAX : Z := 2147483647.

Definition in_int (z : Z) : Prop := INT_MIN <= z <= INT_MAX.

Definition in_intb (z : Z) : bool := (INT_MIN <=? z) && (z <=? INT_MAX).

(** The result of an [int] operation, when it is representable. *)
Definition checked (z : Z) : option Z :=
  if in_intb z then Some z else None.

Definition add (a b : Z) : option Z := checked (a + b).
Definition sub (a b : Z) : option Z := checked (a - b).

(** C's [%] truncates towards zero, as [Z.rem] does. *)
Definition rem (a b : Z) : option Z :=
  if b =? 0 then None else checked (Z.rem a b).

End CInt.

(** ** Text written by [printf] *)

Module Stdio.

Local Open Scope string_scope.

Definition LF_char : ascii := "010"%char.

(** The one-character string the C escape [\n] stands for. *)
Definition LF : string := String LF_char "".

(** [%d]: decimal digits, a leading [-] for a negative number. *)
Definition dec (z : Z) : string := NilZero.string_of_int (Z.to_int z).

(** The text [printf fmt args] produces; [%d] is the only conversion
    the program uses.  A conversion without an argument has none. *)
Fixpoint format (fmt : string) (args : list Z) : option string :=
  match fmt with
  | "" => Some ""
  | String "%" (String "d" rest) =>
      match args with
      | a :: args' => option_map (String.append (dec a)) (format rest args')
      | [] => None
      end
  | String c rest => option_map (String c) (format rest args)
  end.

(** Splitting a stream into its newline-terminated lines (each without
    its newline) and the text after the last newline. *)
Fixpoint split_lines (s : string) : list string * string :=
  match s with
  | "" => ([], "")
  | String c rest =>
      let (ls, tl) := split_lines rest in
      if Ascii.eqb c LF_char then ("" :: ls, tl)
      else match ls with
           | [] => ([], String c tl)
           | l :: ls' => (String c l :: ls', tl)
           end
  end.

(** The stream that consists of the given lines. *)
Fixpoint unlines (ls : list string) : string :=
  match ls with
  | [] => ""
  | l :: ls' => l +++ LF +++ unlines ls'
  end.

(** A text that can be one line: it holds no newline. *)
Fixpoint no_LF (s : string) : Prop :=
  match s with
  | "" => True
  | String c rest => c <> LF_char /\ no_LF rest
  end.

End Stdio.

(** ** The world and the monad of C computations *)

(** [struct RecursiveMadness]; the two [int*] fields hold addresses. *)
Record RecursiveMadness : Type := mkRecursiveMadness {
  width : Z;
  height : Z;
  current_generation : Z;
  grid : Z;
  next_grid : Z;
  depth : Z
}.

(** A [RecursiveMadness*]: the index of the object in the heap. *)
Definition ptr : Type := nat.

Record world : Type := mkWorld {
  heap : list RecursiveMadness;
  stdout : string
}.

Inductive outcome (A : Type) : Type :=
| Done (a : A) (w : world)
| Undefined
| OutOfFuel.

Arguments Done {A} a w.
Arguments Undefined {A}.
Arguments OutOfFuel {A}.

Definition M (A : Type) : Type := world -> outcome A.

Definition ret {A} (a : A) : M A := fun w => Done a w.

Definition bind {A B} (m : M A) (k : A -> M B) : M B :=
  fun w =>
    match m w with
    | Done a w' => k a w'
    | Undefined => Undefined
    | OutOfFuel => OutOfFuel
    end.

Notation "x <- m ;; k" := (bind m (fun x => k))
  (at level 61, m at next level, right associativity).
Notation "m ;; k" := (bind m (fun _ => k))
  (at level 61, right associativity).

Definition out_of_fuel {A} : M A := fun _ => OutOfFuel.

(** An [int] expression: undefined behaviour when it overflows. *)
Definition eval {A} (o : option A) : M A :=
  fun w => match o with Some a => Done a w | None => Undefined end.

(** The world after [s] is written to standard output. *)
Definition emit (w : world) (s : string) : world :=
  {| heap := heap w; stdout := (stdout w +++ s)%string |}.

Definition printf (fmt : string) (args : list Z) : M unit :=
  fun w =>
    match Stdio.format fmt args with
    | Some s => Done tt (emit w s)
    | None => Undefined
    end.

(** [malloc(sizeof(RecursiveMadness))]: a fresh object whose fields hold
    the indeterminate contents [junk].  Allocation is taken to succeed. *)
Definition malloc (junk : RecursiveMadness) : M ptr :=
  fun w => Done (List.length (heap w))
                {| heap := (heap w ++ [junk])%list; stdout := stdout w |}.

Definition set_depth (o : RecursiveMadness) (v : Z) : RecursiveMadness :=
  {| width := width o; height := height o;
     current_generation := current_generation o;
     grid := grid o; next_grid := next_grid o; depth := v |}.

Fixpoint update {A} (l : list A) (n : nat) (f : A -> A) : option (list A) :=
  match l, n with
  | [], _ => None
  | a :: l', O => Some (f a :: l')
  | a :: l', S n' => option_map (cons a) (update l' n' f)
  end.

(** [this->depth = v] *)
Definition store_depth (this : ptr) (v : Z) : M unit :=
  fun w =>
    match update (heap w) this (fun o => set_depth o v) with
    | Some h => Done tt {| heap := h; stdout := stdout w |}
    | None => Undefined
    end.

(** ** The program *)

Definition RecursiveMadness_new (junk : RecursiveMadness) : M ptr :=
  this <- malloc junk ;;
  store_depth this 0 ;;
  store_depth this 0 ;;
  ret this.

(** [bar] writes [this->get_limit(count)], a member the struct does not
    have; the only [get_limit] of the program is this function, which is
    what the call is read as. *)
Definition RecursiveMadness_get_limit (this : ptr) (x : Z) : M Z :=
  if x <? 0 then ret 0
  else
    r <- eval (CInt.rem x 4) ;;
    eval (CInt.add r 2).

(** [for (int i = init; cond(i); i = step(i)) body(i)] *)
Fixpoint for_loop (fuel : nat) (cond : Z -> M bool) (step : Z -> M Z)
         (body : Z -> M unit) (i : Z) : M unit :=
  match fuel with
  | O => out_of_fuel
  | S fuel' =>
      b <- cond i ;;
      if (b : bool) then
        body i ;;
        i' <- step i ;;
        for_loop fuel' cond step body i'
      else ret tt
  end.

Fixpoint RecursiveMadness_foo (fuel : nat) (this : ptr) (level : Z)
  {struct fuel} : M unit :=
  match fuel with
  | O => out_of_fuel
  | S fuel' =>
      let result := level in
      if result >? 0 then
        level <- eval (CInt.sub result 1) ;;
        RecursiveMadness_bar fuel' this level
      else
        printf ("Reached base in foo" +++ Stdio.LF) []
  end

with RecursiveMadness_bar (fuel : nat) (this : ptr) (count : Z)
  {struct fuel} : M unit :=
  match fuel with
  | O => out_of_fuel
  | S fuel' =>
      for_loop fuel'
        (fun i => l <- RecursiveMadness_get_limit this count ;; ret (i <=? l))
        (fun i => eval (CInt.add i 1))
        (fun i =>
           let count := i in
           printf ("bar loop i=%d, count=%d" +++ Stdio.LF) [i; count])
        0 ;;
      level <- eval (CInt.sub count 1) ;;
      RecursiveMadness_foo fuel' this level
  end.

Definition RecursiveMadness_start (fuel : nat) (this : ptr) (x : Z) : M unit :=
  printf ("Starting madness with %d" +++ Stdio.LF) [x] ;;
  RecursiveMadness_foo fuel this x.

(** [main] returns the exit status. *)
Definition main (fuel : nat) (junk : RecursiveMadness) : M Z :=
  insane <- RecursiveMadness_new junk ;;
  RecursiveMadness_start fuel insane 6 ;;
  ret 0.

(** The process starts with an empty heap and nothing written. *)
Definition initial_world : world := {| heap := []; stdout := "" |}.

(** ** Vocabulary of the trace *)

Local Open Scope string_scope.
Local Open Scope Z_scope.

(** The spec's [limit]: 0 below zero, otherwise the non-negative remainder
    modulo 4, plus 2. *)
Definition limit (x : Z) : Z := if x <? 0 then 0 else x mod 4 + 2.

Definition banner_line (x : Z) : string :=
  "Starting madness with " +++ Stdio.dec x.

Definition bar_loop_line (i count : Z) : string :=
  "bar loop i=" +++ Stdio.dec i +++ ", count=" +++ Stdio.dec count.

Definition base_line : string := "Reached base in foo".

(** [zrange i n] is [i, i+1, ..., i+n-1]. *)
Fixpoint zrange (i : Z) (n : nat) : list Z :=
  match n with
  | O => []
  | S n' => i :: zrange (i + 1) n'
  end.

(** The lines of one run of [bar]'s loop: one for each [i] from 0 through
    [limit count], printing [i] twice. *)
Definition bar_loop_lines (count : Z) : list string :=
  map (fun i => bar_loop_line i i) (zrange 0 (Z.to_nat (limit count + 1))).

(** The lines [foo level] writes when it is given [n] rounds of
    [foo -> bar -> foo]. *)
Fixpoint foo_lines (n : nat) (level : Z) : list string :=
  if level >? 0 then
    match n with
    | O => []
    | S n' => (bar_loop_lines (level - 1) ++ foo_lines n' (level - 2))%list
    end
  else [base_line].

Definition start_lines (x : Z) : list string :=
  banner_line x :: foo_lines (Z.to_nat x) x.

Definition is_bar_loop (l : string) : bool := String.prefix "bar loop" l.

Definition count_bar_loop (ls : list string) : Z :=
  Z.of_nat (List.length (filter is_bar_loop ls)).

Definition sum_over (f : Z -> Z) (ks : list Z) : Z :=
  fold_right (fun k acc => f k + acc) 0 ks.

(** The sum the spec gives for the [bar loop] lines of [start x]:
    [limit k + 1] over every [k] from 0 to [x - 1]. *)
Definition spec_bar_loop_total (x : Z) : Z :=
  sum_over (fun k => limit k + 1) (zrange 0 (Z.to_nat x)).

(** The arguments [bar] is invoked with in a run from [foo x]:
    [x - 1, x - 3, ...], as long as they are not negative. *)
Definition bar_args (x : Z) : list Z :=
  map (fun j => x - 1 - 2 * Z.of_nat j) (seq 0 (Z.to_nat ((x + 1) / 2))).

(** [m], given enough fuel, returns [a] from [w] after writing exactly the
    lines [ls] (and nothing else) and leaving the heap as it was. *)
Definition terminates_printing {A} (m : nat -> M A) (w : world) (a : A)
           (ls : list string) : Prop :=
  (exists N, forall fuel, (N <= fuel)%nat ->
     m fuel w = Done a (emit w (Stdio.unlines ls)))
  /\ Stdio.split_lines (Stdio.unlines ls) = (ls, "").

(** The outcome [o] with the heap replaced by [h]. *)
Definition with_heap {A} (h : list RecursiveMadness) (o : outcome A)
  : outcome A :=
  match o with
  | Done a w => Done a {| heap := h; stdout := stdout w |}
  | Undefined => Undefined
  | OutOfFuel => OutOfFuel
  end.

(** [m] and [m'] neither read nor write the heap: run on any two heaps
    they differ in nothing but the heap they hand back untouched. *)
Definition heap_oblivious {A} (m m' : M A) : Prop :=
  forall h h' s,
    m {| heap := h; stdout := s |} =
    with_heap h (m' {| heap := h'; stdout := s |}).

(** The number of [bar loop] lines of a run from [foo x], in closed form:
    with [n = (x + 1) / 2] calls of [bar], the loops have 4 and 6 lines in
    turn when [x] is even, 3 and 5 in turn when [x] is odd. *)
Definition bar_loop_closed_form (x : Z) : Z :=
  if x <=? 0 then 0
  else
    let n := (x + 1) / 2 in
    if Z.even x then 4 * ((n + 1) / 2) + 6 * (n / 2)
    else 3 * ((n + 1) / 2) + 5 * (n / 2).

(** ** Lines and streams *)

Module StdioFacts.
Import Stdio.

Lemma append_assoc (a b c : string) : (a +++ b) +++ c = a +++ b +++ c.
Proof. induction a as [|x a IH]; simpl; [reflexivity | now rewrite IH]. Qed.

Lemma append_nil_r (a : string) : a +++ "" = a.
Proof. induction a as [|x a IH]; simpl; [reflexivity | now rewrite IH]. Qed.

Lemma no_LF_append (a b : string) : no_LF a -> no_LF b -> no_LF (a +++ b).
Proof.
  induction a as [|x a IH]; simpl; [tauto|].
  intros [Hx Ha] Hb. split; [assumption | now apply IH].
Qed.

Lemma no_LF_uint (d : Decimal.uint) : no_LF (NilEmpty.string_of_uint d).
Proof.
  induction d; simpl; try exact I; (split; [discriminate | assumption]).
Qed.

Lemma no_LF_dec (z : Z) : no_LF (dec z).
Proof.
  unfold dec, NilZero.string_of_int, NilZero.string_of_uint.
  destruct (Z.to_int z) as [d|d].
  - destruct d; try apply no_LF_uint. simpl. split; [discriminate | exact I].
  - simpl. split; [discriminate|].
    destruct d; try apply no_LF_uint. simpl. split; [discriminate | exact I].
Qed.

Lemma split_lines_line (l rest : string) :
  no_LF l ->
  split_lines (l +++ LF +++ rest) =
  (l :: fst (split_lines rest), snd (split_lines rest)).
Proof.
  induction l as [|c l IH]; intros H.
  - simpl. destruct (split_lines rest); reflexivity.
  - destruct H as [Hc Hl]. cbn [append split_lines].
    rewrite (IH Hl).
    destruct (Ascii.eqb_spec c LF_char) as [E|_]; [contradiction | reflexivity].
Qed.

Lemma split_lines_unlines (ls : list string) :
  Forall no_LF ls -> split_lines (unlines ls) = (ls, "").
Proof.
  induction 1 as [|l ls Hl _ IH]; [reflexivity|].
  cbn [unlines]. rewrite (split_lines_line _ _ Hl), IH. reflexivity.
Qed.

Lemma unlines_app (xs ys : list string) :
  unlines (xs ++ ys) = unlines xs +++ unlines ys.
Proof.
  induction xs as [|x xs IH]; [reflexivity|].
  cbn [unlines List.app]. now rewrite IH, !append_assoc.
Qed.

End StdioFacts.

(** ** Running the program *)

(** Goals about the bounds of [int]. *)
Ltac int_range :=
  unfold CInt.in_int, CInt.INT_MIN, CInt.INT_MAX in *; lia.

Lemma emit_emit (w : world) (a b : string) :
  emit (emit w a) b = emit w (a +++ b).
Proof. unfold emit; simpl. now rewrite StdioFacts.append_assoc. Qed.

Lemma checked_in_int (z : Z) : CInt.in_int z -> CInt.checked z = Some z.
Proof.
  unfold CInt.in_int, CInt.checked, CInt.in_intb. intros [Hlo Hhi].
  apply Z.leb_le in Hlo, Hhi. now rewrite Hlo, Hhi.
Qed.

Lemma bind_done {A B} (m : M A) (k : A -> M B) (w w' : world) (a : A) :
  m w = Done a w' -> bind m k w = k a w'.
Proof. unfold bind. now intros ->. Qed.

Lemma eval_sub (a b : Z) (w : world) :
  CInt.in_int (a - b) -> eval (CInt.sub a b) w = Done (a - b) w.
Proof. intros H. unfold eval, CInt.sub. now rewrite (checked_in_int _ H). Qed.

Lemma eval_add (a b : Z) (w : world) :
  CInt.in_int (a + b) -> eval (CInt.add a b) w = Done (a + b) w.
Proof. intros H. unfold eval, CInt.add. now rewrite (checked_in_int _ H). Qed.

Lemma limit_range (x : Z) :
  (x < 0 -> limit x = 0) /\ (0 <= x -> 2 <= limit x <= 5).
Proof.
  unfold limit. split; intros H.
  - apply Z.ltb_lt in H. now rewrite H.
  - destruct (Z.ltb_spec x 0); [lia|].
    pose proof (Z.mod_pos_bound x 4). lia.
Qed.

Lemma limit_bounds (x : Z) : 0 <= limit x <= 5.
Proof. destruct (limit_range x). destruct (Z.lt_ge_cases x 0); lia. Qed.

Lemma get_limit_value (this : ptr) (x : Z) (w : world) :
  RecursiveMadness_get_limit this x w = Done (limit x) w.
Proof.
  unfold RecursiveMadness_get_limit, limit.
  destruct (Z.ltb_spec x 0) as [Hneg|Hpos]; [reflexivity|].
  pose proof (Z.mod_pos_bound x 4 eq_refl) as Hm.
  assert (Hr : Z.rem x 4 = x mod 4) by (apply Z.rem_mod_nonneg; lia).
  unfold CInt.rem. cbn [Z.eqb].
  rewrite (bind_done _ _ w w (x mod 4)).
  - apply eval_add. int_range.
  - unfold eval. rewrite Hr, checked_in_int; [reflexivity|].
    int_range.
Qed.

Lemma printf_banner (x : Z) (w : world) :
  printf ("Starting madness with %d" +++ Stdio.LF) [x] w =
  Done tt (emit w (banner_line x +++ Stdio.LF)).
Proof. reflexivity. Qed.

Lemma printf_bar_loop (i count : Z) (w : world) :
  printf ("bar loop i=%d, count=%d" +++ Stdio.LF) [i; count] w =
  Done tt (emit w (bar_loop_line i count +++ Stdio.LF)).
Proof.
  unfold bar_loop_line. cbn [String.append].
  rewrite !StdioFacts.append_assoc. reflexivity.
Qed.

Lemma printf_base (w : world) :
  printf ("Reached base in foo" +++ Stdio.LF) [] w =
  Done tt (emit w (base_line +++ Stdio.LF)).
Proof. reflexivity. Qed.

(** The loop of [bar], entered at index [i] with [n] indices left up to
    [limit count], writes one line for each and stops. *)
Lemma bar_loop_run (this : ptr) (count : Z) (n : nat) :
  forall (i : Z) (fuel : nat) (w : world),
    0 <= i ->
    i + Z.of_nat n = limit count + 1 ->
    (n < fuel)%nat ->
    for_loop fuel
      (fun i => l <- RecursiveMadness_get_limit this count ;; ret (i <=? l))
      (fun i => eval (CInt.add i 1))
      (fun i =>
         let count := i in
         printf ("bar loop i=%d, count=%d" +++ Stdio.LF) [i; count])
      i w =
    Done tt (emit w (Stdio.unlines
                       (map (fun i => bar_loop_line i i) (zrange i n)))).
Proof.
  pose proof (limit_bounds count) as HL.
  induction n as [|n IH]; intros i fuel w Hi Hn Hfuel.
  - destruct fuel as [|fuel]; [lia|].
    cbn [for_loop zrange map Stdio.unlines].
    rewrite (bind_done _ _ w w (i <=? limit count)).
    + destruct (Z.leb_spec i (limit count)); [lia|].
      unfold ret, emit. rewrite StdioFacts.append_nil_r. now destruct w.
    + now rewrite (bind_done _ _ w w (limit count)) by apply get_limit_value.
  - destruct fuel as [|fuel]; [lia|].
    cbn [for_loop zrange map Stdio.unlines].
    rewrite (bind_done _ _ w w (i <=? limit count)).
    + destruct (Z.leb_spec i (limit count)); [|lia].
      rewrite (bind_done _ _ _ _ tt (printf_bar_loop i i w)).
      rewrite (bind_done _ _ _ (emit w (bar_loop_line i i +++ Stdio.LF)) (i + 1)).
      * rewrite IH by lia. rewrite emit_emit, StdioFacts.append_assoc.
        reflexivity.
      * apply eval_add. int_range.
    + now rewrite (bind_done _ _ w w (limit count)) by apply get_limit_value.
Qed.

Lemma bar_loop_lines_length (count : Z) :
  Z.of_nat (List.length (bar_loop_lines count)) = limit count + 1.
Proof.
  unfold bar_loop_lines. rewrite length_map.
  assert (H : forall n i, List.length (zrange i n) = n)
    by (induction n; intros; simpl; [reflexivity | now rewrite IHn]).
  rewrite H. pose proof (limit_bounds count). lia.
Qed.

(** One call of [bar]: the loop's lines, then [foo] on the value of the C
    expression [count - 1]. *)
Lemma bar_unfold (fuel : nat) (this : ptr) (count : Z) (w : world) :
  (Z.to_nat (limit count) + 2 <= fuel)%nat ->
  RecursiveMadness_bar (S fuel) this count w =
  (level <- eval (CInt.sub count 1) ;; RecursiveMadness_foo fuel this level)
    (emit w (Stdio.unlines (bar_loop_lines count))).
Proof.
  intros Hfuel. pose proof (limit_bounds count) as HL.
  cbn [RecursiveMadness_bar].
  rewrite (bind_done _ _ w (emit w (Stdio.unlines (bar_loop_lines count))) tt);
    [reflexivity|].
  unfold bar_loop_lines. apply bar_loop_run; lia.
Qed.

Lemma foo_base (fuel : nat) (this : ptr) (level : Z) (w : world) :
  level <= 0 ->
  RecursiveMadness_foo (S fuel) this level w =
  Done tt (emit w (base_line +++ Stdio.LF)).
Proof.
  intros H. cbn [RecursiveMadness_foo].
  destruct (Z.gtb_spec level 0); [lia | apply printf_base].
Qed.

Lemma foo_step (fuel : nat) (this : ptr) (level : Z) (w : world) :
  0 < level <= CInt.INT_MAX ->
  RecursiveMadness_foo (S fuel) this level w =
  RecursiveMadness_bar fuel this (level - 1) w.
Proof.
  intros H. cbn [RecursiveMadness_foo].
  destruct (Z.gtb_spec level 0); [|lia].
  apply bind_done, eval_sub.
  int_range.
Qed.

(** [foo level] within [n] rounds: enough fuel gives the lines of
    [foo_lines]. *)
Lemma foo_run (this : ptr) (n : nat) :
  forall (level : Z) (fuel : nat) (w : world),
    level <= CInt.INT_MAX ->
    level <= 2 * Z.of_nat n ->
    (2 * n + 7 <= fuel)%nat ->
    RecursiveMadness_foo fuel this level w =
    Done tt (emit w (Stdio.unlines (foo_lines n level))).
Proof.
  induction n as [|n IH]; intros level fuel w Hmax Hn Hfuel.
  - destruct fuel as [|fuel]; [lia|].
    rewrite foo_base by lia. cbn [foo_lines].
    destruct (Z.gtb_spec level 0); [lia|]. reflexivity.
  - destruct fuel as [|fuel]; [lia|].
    destruct (Z.lt_ge_cases 0 level) as [Hpos|Hneg].
    + rewrite foo_step by lia.
      destruct fuel as [|fuel]; [lia|].
      pose proof (limit_bounds (level - 1)) as HL.
      rewrite bar_unfold by lia.
      set (w1 := emit w (Stdio.unlines (bar_loop_lines (level - 1)))).
      rewrite (bind_done _ _ w1 w1 (level - 1 - 1)); subst w1.
      * rewrite IH by lia. rewrite emit_emit.
        cbn [foo_lines]. destruct (Z.gtb_spec level 0); [|lia].
        rewrite StdioFacts.unlines_app.
        replace (level - 2) with (level - 1 - 1) by lia. reflexivity.
      * apply eval_sub.
        int_range.
    + rewrite foo_base by lia. cbn [foo_lines].
      destruct (Z.gtb_spec level 0); [lia|]. reflexivity.
Qed.

Lemma start_run (this : ptr) (x : Z) (fuel : nat) (w : world) :
  x <= CInt.INT_MAX ->
  (2 * Z.to_nat x + 7 <= fuel)%nat ->
  RecursiveMadness_start fuel this x w =
  Done tt (emit w (Stdio.unlines (start_lines x))).
Proof.
  intros Hmax Hfuel. unfold RecursiveMadness_start.
  rewrite (bind_done _ _ _ _ tt (printf_banner x w)).
  rewrite (foo_run this (Z.to_nat x)) by lia.
  rewrite emit_emit, StdioFacts.append_assoc. reflexivity.
Qed.

(** ** The shape of the trace *)

Lemma bar_args_nonpos (x : Z) : x <= 0 -> bar_args x = [].
Proof.
  intros H. unfold bar_args.
  replace (Z.to_nat ((x + 1) / 2)) with O; [reflexivity|].
  assert ((x + 1) / 2 < 1) by (apply Z.div_lt_upper_bound; lia). lia.
Qed.

Lemma bar_args_pos (x : Z) : 0 < x -> bar_args x = x - 1 :: bar_args (x - 2).
Proof.
  intros H. unfold bar_args.
  assert (E : (x + 1) / 2 = (x - 2 + 1) / 2 + 1).
  { replace (x + 1) with (x - 2 + 1 + 1 * 2) by lia.
    now rewrite Z.div_add by lia. }
  assert (0 <= (x - 2 + 1) / 2) by (apply Z.div_pos; lia).
  rewrite E, Z2Nat.inj_add by lia.
  change (Z.to_nat 1) with 1%nat. rewrite Nat.add_1_r.
  cbn [seq map]. f_equal; [lia|].
  rewrite <- seq_shift, map_map. apply map_ext. intros j. lia.
Qed.

(** The trace of [foo x] is the loop lines of [bar] at each argument it is
    invoked with, and then the base line. *)
Lemma foo_lines_shape (n : nat) :
  forall x, x <= 2 * Z.of_nat n ->
    foo_lines n x = (List.concat (map bar_loop_lines (bar_args x)) ++ [base_line])%list.
Proof.
  induction n as [|n IH]; intros x Hx; cbn [foo_lines];
    destruct (Z.gtb_spec x 0) as [Hpos|Hneg]; try lia.
  - now rewrite bar_args_nonpos by lia.
  - rewrite bar_args_pos, IH by lia. cbn [map List.concat].
    now rewrite <- app_assoc.
  - now rewrite bar_args_nonpos by lia.
Qed.

Lemma start_lines_shape (x : Z) :
  start_lines x =
  banner_line x :: (List.concat (map bar_loop_lines (bar_args x)) ++ [base_line])%list.
Proof. unfold start_lines. rewrite foo_lines_shape by lia. reflexivity. Qed.

Lemma bar_loop_lines_all (count : Z) :
  Forall (fun l => exists i, 0 <= i <= limit count /\ l = bar_loop_line i i)
         (bar_loop_lines count).
Proof.
  unfold bar_loop_lines.
  assert (H : forall n i, Forall (fun j => i <= j < i + Z.of_nat n) (zrange i n)).
  { induction n as [|n IH]; intros i; cbn [zrange]; constructor; [lia|].
    eapply Forall_impl; [|apply IH]. cbn beta. intros; lia. }
  apply Forall_map. eapply Forall_impl; [|apply H].
  cbn beta. intros j Hj. exists j. pose proof (limit_bounds count).
  split; [lia | reflexivity].
Qed.

Lemma bar_args_lines_all (ks : list Z) :
  Forall (fun l => exists i, l = bar_loop_line i i)
         (List.concat (map bar_loop_lines ks)).
Proof.
  induction ks as [|k ks IH]; cbn [map List.concat]; [constructor|].
  apply Forall_app. split; [|assumption].
  eapply Forall_impl; [|apply bar_loop_lines_all].
  cbn beta. intros l (i & _ & ->). now exists i.
Qed.

Lemma no_LF_bar_loop_line (i count : Z) : Stdio.no_LF (bar_loop_line i count).
Proof.
  unfold bar_loop_line.
  repeat (apply StdioFacts.no_LF_append || apply StdioFacts.no_LF_dec
          || (cbn; repeat split; discriminate)).
Qed.

Lemma no_LF_banner_line (x : Z) : Stdio.no_LF (banner_line x).
Proof.
  unfold banner_line.
  repeat (apply StdioFacts.no_LF_append || apply StdioFacts.no_LF_dec
          || (cbn; repeat split; discriminate)).
Qed.

Lemma no_LF_base_line : Stdio.no_LF base_line.
Proof. cbn. repeat split; discriminate. Qed.

Lemma no_LF_start_lines (x : Z) : Forall Stdio.no_LF (start_lines x).
Proof.
  rewrite start_lines_shape. constructor; [apply no_LF_banner_line|].
  apply Forall_app. split.
  - eapply Forall_impl; [|apply bar_args_lines_all].
    cbn beta. intros l [i ->]. apply no_LF_bar_loop_line.
  - constructor; [apply no_LF_base_line | constructor].
Qed.

Lemma is_bar_loop_line (i count : Z) : is_bar_loop (bar_loop_line i count) = true.
Proof. reflexivity. Qed.

Lemma filter_bar_loop_lines (count : Z) :
  filter is_bar_loop (bar_loop_lines count) = bar_loop_lines count.
Proof.
  apply forallb_filter_id, forallb_forall. intros l Hl.
  pose proof (bar_loop_lines_all count) as H.
  rewrite Forall_forall in H. destruct (H l Hl) as (i & _ & ->).
  apply is_bar_loop_line.
Qed.

Lemma count_bar_loop_app (xs ys : list string) :
  count_bar_loop (xs ++ ys) = count_bar_loop xs + count_bar_loop ys.
Proof. unfold count_bar_loop. rewrite filter_app, length_app. lia. Qed.

Lemma count_bar_loop_args (ks : list Z) :
  count_bar_loop (List.concat (map bar_loop_lines ks)) =
  sum_over (fun k => limit k + 1) ks.
Proof.
  induction ks as [|k ks IH]; [reflexivity|].
  cbn [map List.concat sum_over fold_right]. rewrite count_bar_loop_app.
  fold (sum_over (fun k => limit k + 1) ks). rewrite IH. f_equal.
  unfold count_bar_loop. rewrite filter_bar_loop_lines.
  apply bar_loop_lines_length.
Qed.

Lemma count_bar_loop_start_lines (x : Z) :
  count_bar_loop (start_lines x) = sum_over (fun k => limit k + 1) (bar_args x).
Proof.
  rewrite start_lines_shape.
  change (banner_line x :: ?l) with ([banner_line x] ++ l)%list.
  rewrite !count_bar_loop_app, count_bar_loop_args.
  change (count_bar_loop [banner_line x]) with 0.
  change (count_bar_loop [base_line]) with 0. lia.
Qed.

Lemma start_terminates_printing (this : ptr) (x : Z) (w : world) :
  x <= CInt.INT_MAX ->
  terminates_printing (fun fuel => RecursiveMadness_start fuel this x) w tt
                      (start_lines x).
Proof.
  intros Hx. split.
  - exists (2 * Z.to_nat x + 7)%nat. intros fuel Hfuel.
    now apply start_run.
  - apply StdioFacts.split_lines_unlines, no_LF_start_lines.
Qed.

(** ** More fuel never changes a result *)

Lemma bind_inv {A B} (m : M A) (k : A -> M B) (w w' : world) (b : B) :
  bind m k w = Done b w' ->
  exists a w1, m w = Done a w1 /\ k a w1 = Done b w'.
Proof.
  unfold bind. destruct (m w) as [a w1| |]; try discriminate.
  intros H. now exists a, w1.
Qed.

Lemma for_loop_mono cond step body (fuel : nat) :
  forall (fuel' : nat) (i : Z) (w w' : world) (u : unit),
    (fuel <= fuel')%nat ->
    for_loop fuel cond step body i w = Done u w' ->
    for_loop fuel' cond step body i w = Done u w'.
Proof.
  induction fuel as [|fuel IH]; intros fuel' i w w' u Hle H;
    [discriminate|].
  destruct fuel' as [|fuel']; [lia|].
  cbn [for_loop] in *.
  apply bind_inv in H. destruct H as (b & w1 & Hc & H).
  rewrite (bind_done _ _ _ _ _ Hc).
  destruct b; [|assumption].
  apply bind_inv in H. destruct H as (u1 & w2 & Hb & H).
  rewrite (bind_done _ _ _ _ _ Hb).
  apply bind_inv in H. destruct H as (i' & w3 & Hs & H).
  rewrite (bind_done _ _ _ _ _ Hs).
  apply IH; [lia | assumption].
Qed.

Lemma foo_bar_mono (fuel : nat) :
  (forall fuel' this level w w' u,
      (fuel <= fuel')%nat ->
      RecursiveMadness_foo fuel this level w = Done u w' ->
      RecursiveMadness_foo fuel' this level w = Done u w')
  /\
  (forall fuel' this count w w' u,
      (fuel <= fuel')%nat ->
      RecursiveMadness_bar fuel this count w = Done u w' ->
      RecursiveMadness_bar fuel' this count w = Done u w').
Proof.
  induction fuel as [|fuel [IHfoo IHbar]]; [split; discriminate|].
  split; intros fuel' this z w w' u Hle H;
    (destruct fuel' as [|fuel']; [lia|]).
  - cbn [RecursiveMadness_foo] in *.
    destruct (z >? 0); [|assumption].
    apply bind_inv in H. destruct H as (level & w1 & He & H).
    rewrite (bind_done _ _ _ _ _ He).
    apply IHbar; [lia | assumption].
  - cbn [RecursiveMadness_bar] in *.
    apply bind_inv in H. destruct H as (u1 & w1 & Hl & H).
    assert (Hle' : (fuel <= fuel')%nat) by lia.
    rewrite (bind_done _ _ _ _ _ (for_loop_mono _ _ _ _ _ _ _ _ _ Hle' Hl)).
    apply bind_inv in H. destruct H as (level & w2 & He & H).
    rewrite (bind_done _ _ _ _ _ He).
    apply IHfoo; [lia | assumption].
Qed.

Lemma start_mono (fuel fuel' : nat) this x w w' u :
  (fuel <= fuel')%nat ->
  RecursiveMadness_start fuel this x w = Done u w' ->
  RecursiveMadness_start fuel' this x w = Done u w'.
Proof.
  intros Hle H. unfold RecursiveMadness_start in *.
  apply bind_inv in H. destruct H as (u1 & w1 & Hp & H).
  rewrite (bind_done _ _ _ _ _ Hp).
  now apply (proj1 (foo_bar_mono fuel)).
Qed.

(** Whenever [start x] returns, whatever the fuel, it has written the
    lines of [start_lines x]. *)
Lemma start_done (fuel : nat) this x w w' u :
  x <= CInt.INT_MAX ->
  RecursiveMadness_start fuel this x w = Done u w' ->
  w' = emit w (Stdio.unlines (start_lines x)).
Proof.
  intros Hx H.
  apply (start_mono fuel (fuel + (2 * Z.to_nat x + 7))) in H; [|lia].
  rewrite start_run in H by (assumption || lia). now inversion H.
Qed.

Lemma append_inj_l (a b c : string) : a +++ b = a +++ c -> b = c.
Proof.
  induction a as [|x a IH]; cbn [String.append]; intros H;
    [assumption | inversion H; now apply IH].
Qed.

(** The lines a terminating computation writes are determined. *)
Lemma terminates_printing_unique {A} (m : nat -> M A) w a a' ls ls' :
  terminates_printing m w a ls ->
  terminates_printing m w a' ls' ->
  ls = ls'.
Proof.
  intros [[N H] S] [[N' H'] S'].
  specialize (H (N + N')%nat ltac:(lia)).
  specialize (H' (N + N')%nat ltac:(lia)).
  rewrite H in H'. inversion H' as [[Ha Hs]].
  apply append_inj_l in Hs. rewrite Hs in S. rewrite S in S'.
  now inversion S'.
Qed.

(** ** The heap is never touched *)

Lemma oblivious_ret {A} (a : A) : heap_oblivious (ret a) (ret a).
Proof. intros h h' s. reflexivity. Qed.

Lemma oblivious_eval {A} (o : option A) : heap_oblivious (eval o) (eval o).
Proof. intros h h' s. unfold eval. now destruct o. Qed.

Lemma oblivious_printf fmt args :
  heap_oblivious (printf fmt args) (printf fmt args).
Proof. intros h h' s. unfold printf. now destruct (Stdio.format fmt args). Qed.

Lemma oblivious_bind {A B} (m m' : M A) (k k' : A -> M B) :
  heap_oblivious m m' ->
  (forall a, heap_oblivious (k a) (k' a)) ->
  heap_oblivious (bind m k) (bind m' k').
Proof.
  intros Hm Hk h h' s. unfold bind. rewrite (Hm h h' s).
  destruct (m' _) as [a [h1 s1]| |]; cbn [with_heap stdout];
    [apply Hk | reflexivity | reflexivity].
Qed.

Lemma oblivious_get_limit this this' x :
  heap_oblivious (RecursiveMadness_get_limit this x)
                 (RecursiveMadness_get_limit this' x).
Proof.
  unfold RecursiveMadness_get_limit.
  destruct (x <? 0); [apply oblivious_ret|].
  apply oblivious_bind; [apply oblivious_eval|].
  intros r. apply oblivious_eval.
Qed.

Lemma oblivious_for_loop cond cond' step step' body body' (fuel : nat) :
  (forall i, heap_oblivious (cond i) (cond' i)) ->
  (forall i, heap_oblivious (step i) (step' i)) ->
  (forall i, heap_oblivious (body i) (body' i)) ->
  forall i, heap_oblivious (for_loop fuel cond step body i)
                           (for_loop fuel cond' step' body' i).
Proof.
  intros Hc Hs Hb.
  induction fuel as [|fuel IH]; intros i; cbn [for_loop].
  - intros h h' s. reflexivity.
  - apply oblivious_bind; [apply Hc|].
    intros [|]; [|apply oblivious_ret].
    apply oblivious_bind; [apply Hb|]. intros _.
    apply oblivious_bind; [apply Hs|]. intros i'. apply IH.
Qed.

Lemma oblivious_foo_bar (fuel : nat) :
  (forall this this' level,
      heap_oblivious (RecursiveMadness_foo fuel this level)
                     (RecursiveMadness_foo fuel this' level))
  /\
  (forall this this' count,
      heap_oblivious (RecursiveMadness_bar fuel this count)
                     (RecursiveMadness_bar fuel this' count)).
Proof.
  induction fuel as [|fuel [IHfoo IHbar]].
  - split; intros this this' z h h' s; reflexivity.
  - split; intros this this' z.
    + cbn [RecursiveMadness_foo].
      destruct (z >? 0); [|apply oblivious_printf].
      apply oblivious_bind; [apply oblivious_eval|].
      intros level. apply IHbar.
    + cbn [RecursiveMadness_bar].
      apply oblivious_bind.
      * apply oblivious_for_loop; intros i.
        -- apply oblivious_bind; [apply oblivious_get_limit|].
           intros l. apply oblivious_ret.
        -- apply oblivious_eval.
        -- apply oblivious_printf.
      * intros _. apply oblivious_bind; [apply oblivious_eval|].
        intros level. apply IHfoo.
Qed.

Lemma oblivious_start fuel this this' x :
  heap_oblivious (RecursiveMadness_start fuel this x)
                 (RecursiveMadness_start fuel this' x).
Proof.
  unfold RecursiveMadness_start.
  apply oblivious_bind; [apply oblivious_printf|].
  intros _. apply (proj1 (oblivious_foo_bar fuel)).
Qed.

(** ** The run of [main] *)

Lemma new_run (junk : RecursiveMadness) :
  RecursiveMadness_new junk initial_world =
  Done O {| heap := [set_depth junk 0]; stdout := "" |}.
Proof. reflexivity. Qed.

Lemma main_run (junk : RecursiveMadness) (fuel : nat) :
  (19 <= fuel)%nat ->
  main fuel junk initial_world =
  Done 0 {| heap := [set_depth junk 0];
            stdout := Stdio.unlines (start_lines 6) |}.
Proof.
  intros Hfuel. unfold main.
  rewrite (bind_done _ _ _ _ _ (new_run junk)).
  rewrite (bind_done _ _ _ (emit {| heap := [set_depth junk 0]; stdout := "" |}
                                 (Stdio.unlines (start_lines 6))) tt);
    [reflexivity|].
  apply start_run; [int_range|].
  change (Z.to_nat 6) with 6%nat. lia.
Qed.

Lemma main_done (junk : RecursiveMadness) (fuel : nat) (w' : world) (r : Z) :
  main fuel junk initial_world = Done r w' ->
  r = 0 /\ stdout w' = Stdio.unlines (start_lines 6).
Proof.
  unfold main. intros H.
  rewrite (bind_done _ _ _ _ _ (new_run junk)) in H.
  apply bind_inv in H. destruct H as (u & w1 & Hs & H).
  apply start_done in Hs; [|int_range].
  unfold ret in H. inversion H; subst. split; reflexivity.
Qed.

Lemma start_lines_6 :
  start_lines 6 =
  [ "Starting madness with 6";
    "bar loop i=0, count=0"; "bar loop i=1, count=1";
    "bar loop i=2, count=2"; "bar loop i=3, count=3";
    "bar loop i=0, count=0"; "bar loop i=1, count=1";
    "bar loop i=2, count=2"; "bar loop i=3, count=3";
    "bar loop i=4, count=4"; "bar loop i=5, count=5";
    "bar loop i=0, count=0"; "bar loop i=1, count=1";
    "bar loop i=2, count=2"; "bar loop i=3, count=3";
    "Reached base in foo" ].
Proof. reflexivity. Qed.



Lemma no_LF_bar_loop_lines (count : Z) :
  Forall Stdio.no_LF (bar_loop_lines count).
Proof.
  eapply Forall_impl; [|apply bar_loop_lines_all].
  cbn beta. intros l (i & _ & ->). apply no_LF_bar_loop_line.
Qed.

(** ** Claims *)

(** C1, as stated, fails: no run of [main] writes 21 lines (nor 19
    [bar loop] lines); whenever [main] returns, its output has 16 lines. *)
Lemma main_never_writes_21_lines :
  ~ (exists junk fuel w' ls,
        main fuel junk initial_world = Done 0 w' /\
        Stdio.split_lines (stdout w') = (ls, "") /\
        (List.length ls = 21%nat \/ count_bar_loop ls = 19)).
Proof.
  intros (junk & fuel & w' & ls & Hrun & Hsplit & Hlen).
  apply main_done in Hrun. destruct Hrun as [_ Hout].
  rewrite Hout, StdioFacts.split_lines_unlines in Hsplit
    by apply no_LF_start_lines.
  inversion Hsplit; subst ls. rewrite start_lines_6 in Hlen.
  destruct Hlen as [Hlen|Hlen]; vm_compute in Hlen; discriminate.
Qed.

(** C1, amended: run from the initial world with enough fuel, [main]
    returns 0 having written exactly 16 newline-terminated lines: the
    banner [Starting madness with 6], then for k = 5, 3, 1 in that order
    (the arguments [bar] is invoked with) the [limit k + 1] lines of
    [bar]'s loop (4, 6 and 4 lines, 14 in total), and finally
    [Reached base in foo]. *)
Theorem main_writes_16_lines (junk : RecursiveMadness) (fuel : nat) :
  (19 <= fuel)%nat ->
  exists w',
    main fuel junk initial_world = Done 0 w' /\
    Stdio.split_lines (stdout w') = (start_lines 6, "") /\
    start_lines 6 =
      (banner_line 6 ::
       bar_loop_lines 5 ++ bar_loop_lines 3 ++ bar_loop_lines 1 ++
       [base_line])%list /\
    bar_args 6 = [5; 3; 1] /\
    Z.of_nat (List.length (bar_loop_lines 5)) = limit 5 + 1 /\
    Z.of_nat (List.length (bar_loop_lines 3)) = limit 3 + 1 /\
    Z.of_nat (List.length (bar_loop_lines 1)) = limit 1 + 1 /\
    (limit 5 + 1 = 4 /\ limit 3 + 1 = 6 /\ limit 1 + 1 = 4) /\
    count_bar_loop (start_lines 6) = 14 /\
    List.length (start_lines 6) = 16%nat /\
    start_lines 6 =
      [ "Starting madness with 6";
        "bar loop i=0, count=0"; "bar loop i=1, count=1";
        "bar loop i=2, count=2"; "bar loop i=3, count=3";
        "bar loop i=0, count=0"; "bar loop i=1, count=1";
        "bar loop i=2, count=2"; "bar loop i=3, count=3";
        "bar loop i=4, count=4"; "bar loop i=5, count=5";
        "bar loop i=0, count=0"; "bar loop i=1, count=1";
        "bar loop i=2, count=2"; "bar loop i=3, count=3";
        "Reached base in foo" ].
Proof.
  intros Hfuel. eexists. split; [apply main_run; assumption|].
  cbn [stdout]. split.
  { apply StdioFacts.split_lines_unlines, no_LF_start_lines. }
  repeat split; try apply bar_loop_lines_length; reflexivity.
Qed.

Lemma main_writes_16_lines_witness :
  (19 <= 19)%nat /\
  exists w',
    main 19 (mkRecursiveMadness 80 24 0 0 0 7) initial_world = Done 0 w' /\
    Stdio.split_lines (stdout w') = (start_lines 6, "").
Proof.
  split; [lia|].
  destruct (main_writes_16_lines (mkRecursiveMadness 80 24 0 0 0 7) 19)
    as (w' & Hrun & Hsplit & _); [lia|].
  exists w'. split; assumption.
Defined.

(** C2, as stated, fails at x = 2: [start 2] writes the 4 [bar loop]
    lines of [bar 1] only, while the sum of [limit k + 1] over k = 0, 1
    is 7. *)
Lemma start_2_bar_loop_count :
  (exists ls,
     terminates_printing
       (fun fuel => RecursiveMadness_start fuel O 2) initial_world tt ls /\
     count_bar_loop ls = 4) /\
  spec_bar_loop_total 2 = 7 /\
  ~ (exists ls,
       terminates_printing
         (fun fuel => RecursiveMadness_start fuel O 2) initial_world tt ls /\
       count_bar_loop ls = spec_bar_loop_total 2).
Proof.
  assert (Hrun2 : terminates_printing
            (fun fuel => RecursiveMadness_start fuel O 2) initial_world tt
            (start_lines 2))
    by (apply start_terminates_printing; int_range).
  split; [|split].
  - exists (start_lines 2). split; [exact Hrun2 | reflexivity].
  - reflexivity.
  - intros (ls & Hrun & Hcount).
    assert (Hls : ls = start_lines 2)
      by (eapply terminates_printing_unique; eassumption).
    subst ls. vm_compute in Hcount. discriminate.
Qed.

(** C2, amended: for every [int] x >= 1, the number of [bar loop] lines
    [start x] writes is the sum of [limit k + 1] over the arguments [bar]
    is invoked with, k = x - 1, x - 3, x - 5, ... down to 0 or 1 (every
    second integer below x, [(x + 1) / 2] of them). *)
Theorem start_bar_loop_count (this : ptr) (x : Z) (w : world) :
  1 <= x <= CInt.INT_MAX ->
  exists ls,
    terminates_printing
      (fun fuel => RecursiveMadness_start fuel this x) w tt ls /\
    count_bar_loop ls = sum_over (fun k => limit k + 1) (bar_args x) /\
    bar_args x =
      map (fun j => x - 1 - 2 * Z.of_nat j) (seq 0 (Z.to_nat ((x + 1) / 2))).
Proof.
  intros Hx. exists (start_lines x). split; [|split].
  - apply start_terminates_printing. lia.
  - apply count_bar_loop_start_lines.
  - reflexivity.
Qed.

Lemma start_bar_loop_count_witness :
  1 <= 2 <= CInt.INT_MAX /\
  exists ls,
    terminates_printing
      (fun fuel => RecursiveMadness_start fuel O 2) initial_world tt ls /\
    count_bar_loop ls = 4.
Proof.
  assert (Hx : 1 <= 2 <= CInt.INT_MAX) by int_range.
  split; [exact Hx|].
  destruct (start_bar_loop_count O 2 initial_world Hx) as (ls & Hrun & Hcount & _).
  exists ls. split; [exact Hrun | exact Hcount].
Defined.




(** C4: [get_limit] is pure and total: on every integer it returns
    without touching the world, 0 for x < 0 and [x mod 4 + 2], one of
    2, 3, 4, 5, for x >= 0; the result does not depend on the object it is
    called on. *)
Theorem get_limit_contract (this this' : ptr) (x : Z) (w : world) :
  (x < 0 -> RecursiveMadness_get_limit this x w = Done 0 w) /\
  (0 <= x ->
   RecursiveMadness_get_limit this x w = Done (x mod 4 + 2) w /\
   In (x mod 4 + 2) [2; 3; 4; 5]) /\
  RecursiveMadness_get_limit this x w = RecursiveMadness_get_limit this' x w /\
  RecursiveMadness_get_limit this (-1) w = Done 0 w /\
  RecursiveMadness_get_limit this 0 w = Done 2 w /\
  RecursiveMadness_get_limit this 1 w = Done 3 w /\
  RecursiveMadness_get_limit this 2 w = Done 4 w /\
  RecursiveMadness_get_limit this 3 w = Done 5 w /\
  RecursiveMadness_get_limit this 4 w = Done 2 w /\
  RecursiveMadness_get_limit this 7 w = Done 5 w.
Proof.
  split; [|split; [|split]].
  - intros Hx. rewrite get_limit_value.
    now rewrite (proj1 (limit_range x) Hx).
  - intros Hx. rewrite get_limit_value. unfold limit.
    destruct (Z.ltb_spec x 0); [lia|]. split; [reflexivity|].
    pose proof (Z.mod_pos_bound x 4 eq_refl) as Hm. cbn [In].
    assert (x mod 4 = 0 \/ x mod 4 = 1 \/ x mod 4 = 2 \/ x mod 4 = 3) by lia.
    lia.
  - now rewrite !get_limit_value.
  - repeat split; reflexivity.
Qed.

Lemma get_limit_contract_witness :
  RecursiveMadness_get_limit O (-5) initial_world = Done 0 initial_world /\
  RecursiveMadness_get_limit O 11 initial_world = Done 5 initial_world.
Proof.
  split.
  - apply (proj1 (get_limit_contract O O (-5) initial_world)). lia.
  - apply (proj1 (proj2 (get_limit_contract O O 11 initial_world))). lia.
Defined.

(** C5: [foo] called on an [int] [level > 0] writes nothing of its own
    and is the call [bar (level - 1)] in the same world; called on
    [level <= 0] it writes the single line [Reached base in foo] and
    returns, with no fuel left for a call of [bar]. *)
Theorem foo_contract (fuel : nat) (this : ptr) (level : Z) (w : world) :
  (0 < level <= CInt.INT_MAX ->
   RecursiveMadness_foo (S fuel) this level w =
   RecursiveMadness_bar fuel this (level - 1) w) /\
  (level <= 0 ->
   RecursiveMadness_foo (S fuel) this level w =
     Done tt (emit w (Stdio.unlines [base_line])) /\
   RecursiveMadness_foo 1 this level w =
     Done tt (emit w (Stdio.unlines [base_line])) /\
   Stdio.split_lines (Stdio.unlines [base_line]) = ([base_line], "")).
Proof.
  split.
  - apply foo_step.
  - intros Hl. rewrite !foo_base by assumption. repeat split; reflexivity.
Qed.

Lemma foo_contract_witness :
  RecursiveMadness_foo 8 O 6 initial_world =
    RecursiveMadness_bar 7 O 5 initial_world /\
  RecursiveMadness_foo 8 O (-3) initial_world =
    Done tt (emit initial_world (Stdio.unlines [base_line])).
Proof.
  split.
  - apply (proj1 (foo_contract 7 O 6 initial_world)).
    int_range.
  - apply (proj2 (foo_contract 7 O (-3) initial_world)). lia.
Defined.

(** C6: for every non-negative [int] x, the run of [start x] terminates:
    with enough fuel it returns, having written the lines of a finished
    trace that ends in the base case of [foo]; and [main], which runs
    [start 6], returns the exit status 0. *)
Theorem start_and_main_terminate (this : ptr) (x : Z) (w : world)
        (junk : RecursiveMadness) :
  0 <= x <= CInt.INT_MAX ->
  (exists N ls, forall fuel, (N <= fuel)%nat ->
     RecursiveMadness_start fuel this x w =
       Done tt (emit w (Stdio.unlines (ls ++ [base_line])))) /\
  (exists N, forall fuel, (N <= fuel)%nat ->
     exists w', main fuel junk initial_world = Done 0 w').
Proof.
  intros Hx. split.
  - exists (2 * Z.to_nat x + 7)%nat,
      (banner_line x :: List.concat (map bar_loop_lines (bar_args x))).
    intros fuel Hfuel. rewrite start_run by lia.
    now rewrite start_lines_shape.
  - exists 19%nat. intros fuel Hfuel. eexists. now apply main_run.
Qed.

Lemma start_and_main_terminate_witness :
  0 <= 6 <= CInt.INT_MAX /\
  exists N ls, forall fuel, (N <= fuel)%nat ->
    RecursiveMadness_start fuel O 6 initial_world =
      Done tt (emit initial_world (Stdio.unlines (ls ++ [base_line]))).
Proof.
  assert (Hx : 0 <= 6 <= CInt.INT_MAX) by int_range.
  split; [exact Hx|].
  exact (proj1 (start_and_main_terminate O 6 initial_world
                  (mkRecursiveMadness 0 0 0 0 0 0) Hx)).
Defined.

(** C7: for any starting [int] x, whenever [start x] returns, its output
    is a sequence of complete lines, and every line of it that begins with
    [bar loop] is [bar loop i=<i>, count=<i>] for one integer i: the two
    printed integers are equal. *)
Theorem bar_loop_fields_equal (fuel : nat) (this : ptr) (x : Z)
        (w w' : world) :
  CInt.in_int x ->
  RecursiveMadness_start fuel this x w = Done tt w' ->
  exists ls,
    w' = emit w (Stdio.unlines ls) /\
    Stdio.split_lines (Stdio.unlines ls) = (ls, "") /\
    forall l, In l ls -> is_bar_loop l = true ->
      exists i, l = "bar loop i=" +++ Stdio.dec i +++ ", count=" +++ Stdio.dec i.
Proof.
  intros [_ Hx] Hrun. exists (start_lines x). split; [|split].
  - eapply start_done; eassumption.
  - apply StdioFacts.split_lines_unlines, no_LF_start_lines.
  - intros l Hin Hbar. rewrite start_lines_shape in Hin.
    destruct Hin as [<-|Hin]; [discriminate|].
    apply in_app_or in Hin. destruct Hin as [Hin|[<-|[]]]; [|discriminate].
    pose proof (bar_args_lines_all (bar_args x)) as H.
    rewrite Forall_forall in H. exact (H l Hin).
Qed.

Lemma bar_loop_fields_equal_witness :
  CInt.in_int 1 /\
  RecursiveMadness_start 9 O 1 initial_world =
    Done tt (emit initial_world (Stdio.unlines (start_lines 1))) /\
  exists ls,
    emit initial_world (Stdio.unlines (start_lines 1)) =
      emit initial_world (Stdio.unlines ls) /\
    Stdio.split_lines (Stdio.unlines ls) = (ls, "") /\
    forall l, In l ls -> is_bar_loop l = true ->
      exists i, l = "bar loop i=" +++ Stdio.dec i +++ ", count=" +++ Stdio.dec i.
Proof.
  assert (Hx : CInt.in_int 1)
    by int_range.
  assert (Hrun : RecursiveMadness_start 9 O 1 initial_world =
                 Done tt (emit initial_world (Stdio.unlines (start_lines 1))))
    by reflexivity.
  split; [exact Hx|]. split; [exact Hrun|].
  exact (bar_loop_fields_equal 9 O 1 initial_world _ Hx Hrun).
Defined.

(** C8: for every non-negative [int] x, [start x] terminates and the last
    line it writes is [Reached base in foo], which occurs nowhere before
    in the trace. *)
Theorem last_line_is_base (this : ptr) (x : Z) (w : world) :
  0 <= x <= CInt.INT_MAX ->
  exists ls,
    terminates_printing
      (fun fuel => RecursiveMadness_start fuel this x) w tt
      (ls ++ [base_line]) /\
    ~ In base_line ls.
Proof.
  intros Hx.
  exists (banner_line x :: List.concat (map bar_loop_lines (bar_args x))).
  split.
  - change ((?a :: ?l) ++ ?r)%list with (a :: l ++ r)%list.
    rewrite <- start_lines_shape. apply start_terminates_printing. lia.
  - intros [Hin|Hin]; [discriminate|].
    pose proof (bar_args_lines_all (bar_args x)) as H.
    rewrite Forall_forall in H. destruct (H _ Hin) as [i Hi].
    discriminate.
Qed.

Lemma last_line_is_base_witness :
  0 <= 3 <= CInt.INT_MAX /\
  exists ls,
    terminates_printing
      (fun fuel => RecursiveMadness_start fuel O 3) initial_world tt
      (ls ++ [base_line]) /\
    ~ In base_line ls.
Proof.
  assert (Hx : 0 <= 3 <= CInt.INT_MAX) by int_range.
  split; [exact Hx|].
  exact (last_line_is_base O 3 initial_world Hx).
Defined.

(** C9: [start], [foo], [bar] and [get_limit] neither read nor write the
    object: run on any heap [h] through any pointer, each gives the outcome
    it gives on any other heap and pointer (the same result, the same
    output, the same failure) and hands back [h] itself, so every field
    holds after the run what it held before; after [main], the one object
    holds what [new] left in it. *)
Theorem heap_untouched (fuel : nat) (this this' : ptr) (x : Z)
        (h h' : list RecursiveMadness) (s : string) (junk : RecursiveMadness) :
  RecursiveMadness_start fuel this x {| heap := h; stdout := s |} =
    with_heap h
      (RecursiveMadness_start fuel this' x {| heap := h'; stdout := s |}) /\
  RecursiveMadness_foo fuel this x {| heap := h; stdout := s |} =
    with_heap h
      (RecursiveMadness_foo fuel this' x {| heap := h'; stdout := s |}) /\
  RecursiveMadness_bar fuel this x {| heap := h; stdout := s |} =
    with_heap h
      (RecursiveMadness_bar fuel this' x {| heap := h'; stdout := s |}) /\
  RecursiveMadness_get_limit this x {| heap := h; stdout := s |} =
    with_heap h
      (RecursiveMadness_get_limit this' x {| heap := h'; stdout := s |}) /\
  (exists obj,
     RecursiveMadness_new junk initial_world =
       Done O {| heap := [obj]; stdout := "" |} /\
     main (19 + fuel) junk initial_world =
       Done 0 {| heap := [obj]; stdout := Stdio.unlines (start_lines 6) |}).
Proof.
  split; [apply oblivious_start|].
  split; [apply (proj1 (oblivious_foo_bar fuel))|].
  split; [apply (proj2 (oblivious_foo_bar fuel))|].
  split; [apply oblivious_get_limit|].
  exists (set_depth junk 0). split; [apply new_run|].
  apply main_run. lia.
Qed.

(** C10, as stated, fails at c = [INT_MIN]: [bar] writes its one loop
    line and then evaluates [count - 1], which overflows; the call does
    not return normally, whatever the fuel. *)
Lemma bar_INT_MIN_undefined :
  CInt.INT_MIN < 0 /\
  (forall fuel,
     RecursiveMadness_bar (3 + fuel) O CInt.INT_MIN initial_world
     = Undefined) /\
  ~ (exists ls,
       terminates_printing
         (fun fuel => RecursiveMadness_bar fuel O CInt.INT_MIN)
         initial_world tt ls).
Proof.
  assert (H : forall fuel,
             RecursiveMadness_bar (3 + fuel) O CInt.INT_MIN initial_world
             = Undefined).
  { intros fuel. change (3 + fuel)%nat with (S (2 + fuel)).
    rewrite bar_unfold; [reflexivity|].
    change (limit CInt.INT_MIN) with 0. cbn. lia. }
  split; [reflexivity|]. split; [exact H|].
  intros (ls & [N Hrun] & _).
  specialize (Hrun (3 + N)%nat ltac:(lia)).
  rewrite H in Hrun. discriminate.
Qed.

(** C10, amended: for every x <= 0, [start x] returns at once, with fuel
    for one call of [foo] and none for [bar], having written exactly the
    two lines [Starting madness with <x>] and [Reached base in foo]; and a
    direct call [bar c] with [INT_MIN < c < 0] returns after the one loop
    line [bar loop i=0, count=0] and the base line of [foo (c - 1)]. *)
Theorem nonpositive_runs (fuel : nat) (this : ptr) (x c : Z) (w : world) :
  x <= 0 ->
  CInt.INT_MIN < c < 0 ->
  RecursiveMadness_start (S fuel) this x w =
    Done tt (emit w (Stdio.unlines [banner_line x; base_line])) /\
  RecursiveMadness_start 1 this x w =
    Done tt (emit w (Stdio.unlines [banner_line x; base_line])) /\
  Stdio.split_lines (Stdio.unlines [banner_line x; base_line]) =
    ([banner_line x; base_line], "") /\
  RecursiveMadness_bar (3 + fuel) this c w =
    Done tt (emit w (Stdio.unlines [bar_loop_line 0 0; base_line])) /\
  Stdio.split_lines (Stdio.unlines [bar_loop_line 0 0; base_line]) =
    ([bar_loop_line 0 0; base_line], "").
Proof.
  intros Hx Hc.
  assert (Hstart : forall f,
             RecursiveMadness_start (S f) this x w =
             Done tt (emit w (Stdio.unlines [banner_line x; base_line]))).
  { intros f. unfold RecursiveMadness_start.
    rewrite (bind_done _ _ _ _ tt (printf_banner x w)).
    rewrite foo_base, emit_emit by assumption.
    cbn [Stdio.unlines]. now rewrite !StdioFacts.append_assoc. }
  split; [apply Hstart|]. split; [apply Hstart|].
  split; [|split].
  - apply StdioFacts.split_lines_unlines.
    constructor; [apply no_LF_banner_line|].
    constructor; [apply no_LF_base_line | constructor].
  - assert (Hl : limit c = 0) by (apply limit_range; lia).
    change (3 + fuel)%nat with (S (S (S fuel))).
    rewrite bar_unfold by (rewrite Hl; cbn; lia).
    set (w1 := emit w (Stdio.unlines (bar_loop_lines c))).
    rewrite (bind_done _ _ w1 w1 (c - 1)); subst w1.
    + rewrite foo_base, emit_emit by lia.
      unfold bar_loop_lines. rewrite Hl. reflexivity.
    + apply eval_sub.
      int_range.
  - apply StdioFacts.split_lines_unlines.
    constructor; [apply no_LF_bar_loop_line|].
    constructor; [apply no_LF_base_line | constructor].
Qed.

Lemma nonpositive_runs_witness :
  -4 <= 0 /\
  CInt.INT_MIN < -2 < 0 /\
  RecursiveMadness_start 1 O (-4) initial_world =
    Done tt (emit initial_world (Stdio.unlines [banner_line (-4); base_line])) /\
  RecursiveMadness_bar 3 O (-2) initial_world =
    Done tt (emit initial_world
               (Stdio.unlines [bar_loop_line 0 0; base_line])).
Proof.
  assert (Hx : -4 <= 0) by lia.
  assert (Hc : CInt.INT_MIN < -2 < 0) by int_range.
  split; [exact Hx|]. split; [exact Hc|].
  destruct (nonpositive_runs 0 O (-4) (-2) initial_world Hx Hc)
    as (_ & Hstart & _ & Hbar & _).
  split; [exact Hstart | exact Hbar].
Defined.

(** ** Further properties of the program *)

(** *** Fuel only decides whether a run finishes *)

Lemma bind_stable {A B} (m m' : M A) (k k' : A -> M B) (w : world) :
  bind m k w <> OutOfFuel ->
  (m w <> OutOfFuel -> m' w = m w) ->
  (forall a w1, k a w1 <> OutOfFuel -> k' a w1 = k a w1) ->
  bind m' k' w = bind m k w.
Proof.
  unfold bind. intros H Hm Hk.
  destruct (m w) as [a w1| |] eqn:E.
  - rewrite Hm by discriminate. now apply Hk.
  - now rewrite Hm by discriminate.
  - contradiction.
Qed.

Lemma for_loop_stable cond step body (fuel : nat) :
  forall (fuel' : nat) (i : Z) (w : world),
    (fuel <= fuel')%nat ->
    for_loop fuel cond step body i w <> OutOfFuel ->
    for_loop fuel' cond step body i w = for_loop fuel cond step body i w.
Proof.
  induction fuel as [|fuel IH]; intros fuel' i w Hle H;
    [now contradiction H|].
  destruct fuel' as [|fuel']; [lia|].
  cbn [for_loop] in *.
  apply bind_stable; [assumption | reflexivity|].
  intros [|] w1 H1; [|reflexivity].
  apply bind_stable; [assumption | reflexivity|].
  intros _ w2 H2.
  apply bind_stable; [assumption | reflexivity|].
  intros i' w3 H3. apply IH; [lia | assumption].
Qed.

Lemma foo_bar_stable (fuel : nat) :
  (forall fuel' this level w,
      (fuel <= fuel')%nat ->
      RecursiveMadness_foo fuel this level w <> OutOfFuel ->
      RecursiveMadness_foo fuel' this level w =
      RecursiveMadness_foo fuel this level w)
  /\
  (forall fuel' this count w,
      (fuel <= fuel')%nat ->
      RecursiveMadness_bar fuel this count w <> OutOfFuel ->
      RecursiveMadness_bar fuel' this count w =
      RecursiveMadness_bar fuel this count w).
Proof.
  induction fuel as [|fuel [IHfoo IHbar]];
    [split; intros fuel' this z w _ H; now contradiction H|].
  split; intros fuel' this z w Hle H;
    (destruct fuel' as [|fuel']; [lia|]).
  - cbn [RecursiveMadness_foo] in *.
    destruct (z >? 0); [|reflexivity].
    apply bind_stable; [assumption | reflexivity|].
    intros level w1 H1. apply IHbar; [lia | assumption].
  - cbn [RecursiveMadness_bar] in *.
    apply bind_stable; [assumption | |].
    + intros Hl. apply for_loop_stable; [lia | assumption].
    + intros _ w1 H1.
      apply bind_stable; [assumption | reflexivity|].
      intros level w2 H2. apply IHfoo; [lia | assumption].
Qed.

Lemma start_stable (fuel fuel' : nat) this x w :
  (fuel <= fuel')%nat ->
  RecursiveMadness_start fuel this x w <> OutOfFuel ->
  RecursiveMadness_start fuel' this x w = RecursiveMadness_start fuel this x w.
Proof.
  intros Hle H. unfold RecursiveMadness_start in *.
  apply bind_stable; [assumption | reflexivity|].
  intros _ w1 H1. now apply (proj1 (foo_bar_stable fuel)).
Qed.

(** The whole trace of a direct call of [bar]. *)
Lemma bar_run (this : ptr) (count : Z) (fuel : nat) (w : world) :
  CInt.INT_MIN < count <= CInt.INT_MAX ->
  (2 * Z.to_nat count + 8 <= fuel)%nat ->
  RecursiveMadness_bar fuel this count w =
  Done tt (emit w (Stdio.unlines
                     (bar_loop_lines count ++
                      foo_lines (Z.to_nat count) (count - 1)))).
Proof.
  intros Hc Hfuel. destruct fuel as [|fuel]; [lia|].
  pose proof (limit_bounds count) as HL.
  rewrite bar_unfold by lia.
  set (w1 := emit w (Stdio.unlines (bar_loop_lines count))).
  rewrite (bind_done _ _ w1 w1 (count - 1)); subst w1.
  - rewrite (foo_run this (Z.to_nat count)) by int_range.
    now rewrite emit_emit, StdioFacts.unlines_app.
  - apply eval_sub. int_range.
Qed.

Lemma no_LF_foo_lines (level : Z) :
  Forall Stdio.no_LF
         (List.concat (map bar_loop_lines (bar_args level)) ++ [base_line]).
Proof.
  apply Forall_app. split.
  - eapply Forall_impl; [|apply bar_args_lines_all].
    cbn beta. intros l [i ->]. apply no_LF_bar_loop_line.
  - constructor; [apply no_LF_base_line | constructor].
Qed.

(** A direct call of [foo] on any [int] terminates: it writes the loop
    lines of [bar] at [level - 1], [level - 3], ... (none when
    [level <= 0]) and then the base line.  A direct call of [bar] on any
    [int] above [INT_MIN] terminates too: its own loop lines, then the
    trace of [foo (count - 1)]. *)
Theorem foo_and_bar_terminate (this : ptr) (level count : Z) (w : world) :
  CInt.in_int level ->
  CInt.INT_MIN < count <= CInt.INT_MAX ->
  terminates_printing
    (fun fuel => RecursiveMadness_foo fuel this level) w tt
    (List.concat (map bar_loop_lines (bar_args level)) ++ [base_line]) /\
  terminates_printing
    (fun fuel => RecursiveMadness_bar fuel this count) w tt
    (bar_loop_lines count ++
     List.concat (map bar_loop_lines (bar_args (count - 1))) ++ [base_line]).
Proof.
  intros [_ Hl] Hc. split; split.
  - exists (2 * Z.to_nat level + 7)%nat. intros fuel Hfuel.
    rewrite (foo_run this (Z.to_nat level)) by lia.
    now rewrite foo_lines_shape by lia.
  - apply StdioFacts.split_lines_unlines, no_LF_foo_lines.
  - exists (2 * Z.to_nat count + 8)%nat. intros fuel Hfuel.
    rewrite bar_run by assumption.
    now rewrite foo_lines_shape by lia.
  - apply StdioFacts.split_lines_unlines, Forall_app. split.
    + apply no_LF_bar_loop_lines.
    + apply no_LF_foo_lines.
Qed.

Lemma foo_and_bar_terminate_witness :
  CInt.in_int (-7) /\
  CInt.INT_MIN < 2 <= CInt.INT_MAX /\
  terminates_printing
    (fun fuel => RecursiveMadness_foo fuel O (-7)) initial_world tt
    (List.concat (map bar_loop_lines (bar_args (-7))) ++ [base_line]) /\
  terminates_printing
    (fun fuel => RecursiveMadness_bar fuel O 2) initial_world tt
    (bar_loop_lines 2 ++
     List.concat (map bar_loop_lines (bar_args (2 - 1))) ++ [base_line]).
Proof.
  assert (Hl : CInt.in_int (-7)) by int_range.
  assert (Hc : CInt.INT_MIN < 2 <= CInt.INT_MAX) by int_range.
  split; [exact Hl|]. split; [exact Hc|].
  exact (foo_and_bar_terminate O (-7) 2 initial_world Hl Hc).
Defined.

(** No run from an [int] overflows: whatever the fuel, [start x] and
    [foo x] never end in undefined behaviour, nor does [bar x] unless
    [x] is [INT_MIN]; a run that is not cut short by the fuel returns. *)
Theorem no_overflow_from_int (fuel : nat) (this : ptr) (x : Z) (w : world) :
  CInt.in_int x ->
  (RecursiveMadness_start fuel this x w = OutOfFuel \/
   RecursiveMadness_start fuel this x w =
     Done tt (emit w (Stdio.unlines (start_lines x)))) /\
  RecursiveMadness_foo fuel this x w <> Undefined /\
  (CInt.INT_MIN < x -> RecursiveMadness_bar fuel this x w <> Undefined).
Proof.
  intros Hx. split; [|split].
  - destruct (RecursiveMadness_start fuel this x w) as [u w'| |] eqn:E;
      [right | exfalso | now left].
    + destruct u. f_equal. eapply start_done; [|eassumption]. int_range.
    + assert (H : RecursiveMadness_start fuel this x w <> OutOfFuel)
        by (rewrite E; discriminate).
      apply (start_stable fuel (fuel + (2 * Z.to_nat x + 7))) in H; [|lia].
      rewrite start_run, E in H by (int_range || lia). discriminate.
  - intros E.
    assert (H : RecursiveMadness_foo fuel this x w <> OutOfFuel)
      by (rewrite E; discriminate).
    apply (proj1 (foo_bar_stable fuel) (fuel + (2 * Z.to_nat x + 7))%nat)
      in H; [|lia].
    rewrite (foo_run this (Z.to_nat x)), E in H by (int_range || lia).
    discriminate.
  - intros Hmin E.
    assert (H : RecursiveMadness_bar fuel this x w <> OutOfFuel)
      by (rewrite E; discriminate).
    apply (proj2 (foo_bar_stable fuel) (fuel + (2 * Z.to_nat x + 8))%nat)
      in H; [|lia].
    rewrite bar_run, E in H by (int_range || lia). discriminate.
Qed.

Lemma no_overflow_from_int_witness :
  CInt.in_int CInt.INT_MAX /\
  RecursiveMadness_foo 40 O CInt.INT_MAX initial_world <> Undefined.
Proof.
  assert (Hx : CInt.in_int CInt.INT_MAX) by int_range.
  split; [exact Hx|].
  exact (proj1 (proj2 (no_overflow_from_int 40 O CInt.INT_MAX initial_world Hx))).
Defined.

(** Whenever [start x] returns, the first line of its output is the
    banner [Starting madness with <x>], and the banner is written once. *)
Theorem first_line_is_banner (fuel : nat) (this : ptr) (x : Z)
        (w w' : world) :
  CInt.in_int x ->
  RecursiveMadness_start fuel this x w = Done tt w' ->
  exists rest,
    w' = emit w (Stdio.unlines
                   (("Starting madness with " +++ Stdio.dec x) :: rest)) /\
    Stdio.split_lines
      (Stdio.unlines (("Starting madness with " +++ Stdio.dec x) :: rest)) =
      (("Starting madness with " +++ Stdio.dec x) :: rest, "") /\
    ~ In ("Starting madness with " +++ Stdio.dec x) rest.
Proof.
  intros [_ Hx] Hrun.
  exists (List.concat (map bar_loop_lines (bar_args x)) ++ [base_line])%list.
  fold (banner_line x). rewrite <- start_lines_shape. split; [|split].
  - eapply start_done; eassumption.
  - apply StdioFacts.split_lines_unlines, no_LF_start_lines.
  - intros Hin. apply in_app_or in Hin.
    destruct Hin as [Hin|[Hin|[]]]; [|discriminate].
    pose proof (bar_args_lines_all (bar_args x)) as H.
    rewrite Forall_forall in H. destruct (H _ Hin) as [i Hi]. discriminate.
Qed.

Lemma first_line_is_banner_witness :
  CInt.in_int (-3) /\
  RecursiveMadness_start 1 O (-3) initial_world =
    Done tt (emit initial_world (Stdio.unlines (start_lines (-3)))) /\
  exists rest,
    emit initial_world (Stdio.unlines (start_lines (-3))) =
      emit initial_world
        (Stdio.unlines (("Starting madness with " +++ Stdio.dec (-3)) :: rest)).
Proof.
  assert (Hx : CInt.in_int (-3)) by int_range.
  assert (Hrun : RecursiveMadness_start 1 O (-3) initial_world =
                 Done tt (emit initial_world
                            (Stdio.unlines (start_lines (-3)))))
    by reflexivity.
  split; [exact Hx|]. split; [exact Hrun|].
  destruct (first_line_is_banner 1 O (-3) initial_world _ Hx Hrun)
    as (rest & Hw & _).
  exists rest. exact Hw.
Defined.

Lemma bar_args_lines_small (ks : list Z) :
  Forall (fun l => exists i, 0 <= i <= 5 /\ l = bar_loop_line i i)
         (List.concat (map bar_loop_lines ks)).
Proof.
  induction ks as [|k ks IH]; cbn [map List.concat]; [constructor|].
  apply Forall_app. split; [|assumption].
  eapply Forall_impl; [|apply bar_loop_lines_all].
  cbn beta. intros l (i & Hi & ->). exists i.
  pose proof (limit_bounds k). split; [lia | reflexivity].
Qed.

(** Whenever [start x] returns, every line of its output is the banner,
    the base line, or one of six fixed loop lines: a loop index above 5
    is never printed. *)
Theorem output_lines_are_fixed (fuel : nat) (this : ptr) (x : Z)
        (w w' : world) :
  CInt.in_int x ->
  RecursiveMadness_start fuel this x w = Done tt w' ->
  exists ls,
    w' = emit w (Stdio.unlines ls) /\
    Stdio.split_lines (Stdio.unlines ls) = (ls, "") /\
    forall l, In l ls ->
      l = "Starting madness with " +++ Stdio.dec x \/
      l = "Reached base in foo" \/
      In l [ "bar loop i=0, count=0"; "bar loop i=1, count=1";
             "bar loop i=2, count=2"; "bar loop i=3, count=3";
             "bar loop i=4, count=4"; "bar loop i=5, count=5" ].
Proof.
  intros [_ Hx] Hrun. exists (start_lines x). split; [|split].
  - eapply start_done; eassumption.
  - apply StdioFacts.split_lines_unlines, no_LF_start_lines.
  - intros l Hin. rewrite start_lines_shape in Hin.
    destruct Hin as [<-|Hin]; [now left|]. right.
    apply in_app_or in Hin. destruct Hin as [Hin|[<-|[]]]; [|now left].
    right. pose proof (bar_args_lines_small (bar_args x)) as H.
    rewrite Forall_forall in H. destruct (H _ Hin) as (i & Hi & ->).
    assert (Hcases : i = 0 \/ i = 1 \/ i = 2 \/ i = 3 \/ i = 4 \/ i = 5)
      by lia.
    destruct Hcases as [->|[->|[->|[->|[->| ->]]]]]; cbn; tauto.
Qed.

Lemma output_lines_are_fixed_witness :
  CInt.in_int 4 /\
  RecursiveMadness_start 12 O 4 initial_world =
    Done tt (emit initial_world (Stdio.unlines (start_lines 4))) /\
  exists ls,
    emit initial_world (Stdio.unlines (start_lines 4)) =
      emit initial_world (Stdio.unlines ls) /\
    Stdio.split_lines (Stdio.unlines ls) = (ls, "").
Proof.
  assert (Hx : CInt.in_int 4) by int_range.
  assert (Hrun : RecursiveMadness_start 12 O 4 initial_world =
                 Done tt (emit initial_world (Stdio.unlines (start_lines 4))))
    by reflexivity.
  split; [exact Hx|]. split; [exact Hrun|].
  destruct (output_lines_are_fixed 12 O 4 initial_world _ Hx Hrun)
    as (ls & Hw & Hsplit & _).
  exists ls. split; [exact Hw | exact Hsplit].
Defined.

(** *** The size of the output *)

Lemma sum_bar_args_closed_form (n : nat) :
  forall x, x <= 2 * Z.of_nat n ->
    sum_over (fun k => limit k + 1) (bar_args x) = bar_loop_closed_form x.
Proof.
  induction n as [|n IH]; intros x Hx;
    destruct (Z.lt_ge_cases 0 x) as [Hpos|Hneg]; try lia.
  - rewrite bar_args_nonpos by lia. unfold bar_loop_closed_form.
    destruct (Z.leb_spec x 0); [reflexivity | lia].
  - rewrite bar_args_pos by lia. cbn [sum_over fold_right].
    fold (sum_over (fun k => limit k + 1) (bar_args (x - 2))).
    rewrite IH by lia. unfold bar_loop_closed_form, limit.
    destruct (Z.ltb_spec (x - 1) 0); [lia|].
    destruct (Z.leb_spec x 0); [lia|].
    replace (Z.even (x - 2)) with (Z.even x)
      by (rewrite Z.even_sub; now destruct (Z.even x)).
    pose proof (Zmod_even x) as He.
    destruct (Z.leb_spec (x - 2) 0); destruct (Z.even x);
      cbv zeta; Z.div_mod_to_equations; lia.
  - rewrite bar_args_nonpos by lia. unfold bar_loop_closed_form.
    destruct (Z.leb_spec x 0); [reflexivity | lia].
Qed.

Lemma closed_form_bounds (x : Z) :
  0 <= x -> 2 * x <= bar_loop_closed_form x <= 3 * x.
Proof.
  intros Hx. unfold bar_loop_closed_form.
  pose proof (Zmod_even x) as He.
  destruct (Z.leb_spec x 0); [lia|].
  destruct (Z.even x); cbv zeta; Z.div_mod_to_equations; lia.
Qed.

(** For every non-negative [int] x, [start x] writes
    [bar_loop_closed_form x] loop lines, between [2 * x] and [3 * x] of
    them, and two lines more in all. *)
Theorem output_size (this : ptr) (x : Z) (w : world) :
  0 <= x <= CInt.INT_MAX ->
  exists ls,
    terminates_printing
      (fun fuel => RecursiveMadness_start fuel this x) w tt ls /\
    count_bar_loop ls = bar_loop_closed_form x /\
    Z.of_nat (List.length ls) = bar_loop_closed_form x + 2 /\
    2 * x <= count_bar_loop ls <= 3 * x.
Proof.
  intros Hx. exists (start_lines x).
  assert (Hcount : count_bar_loop (start_lines x) = bar_loop_closed_form x).
  { rewrite count_bar_loop_start_lines.
    apply (sum_bar_args_closed_form (Z.to_nat x)). lia. }
  split; [apply start_terminates_printing; lia|].
  split; [exact Hcount|]. split.
  - rewrite <- Hcount, start_lines_shape. unfold count_bar_loop.
    change (banner_line x :: ?l) with ([banner_line x] ++ l)%list.
    rewrite !filter_app, !length_app.
    change (filter is_bar_loop [banner_line x]) with (@nil string).
    change (filter is_bar_loop [base_line]) with (@nil string).
    assert (Hf : filter is_bar_loop
                   (List.concat (map bar_loop_lines (bar_args x))) =
                 List.concat (map bar_loop_lines (bar_args x))).
    { apply forallb_filter_id, forallb_forall. intros l Hl.
      pose proof (bar_args_lines_all (bar_args x)) as H.
      rewrite Forall_forall in H. destruct (H l Hl) as [i ->].
      apply is_bar_loop_line. }
    rewrite Hf. cbn [List.length]. lia.
  - rewrite Hcount. apply closed_form_bounds. lia.
Qed.

Lemma output_size_witness :
  0 <= 6 <= CInt.INT_MAX /\
  exists ls,
    terminates_printing
      (fun fuel => RecursiveMadness_start fuel O 6) initial_world tt ls /\
    count_bar_loop ls = 14.
Proof.
  assert (Hx : 0 <= 6 <= CInt.INT_MAX) by int_range.
  split; [exact Hx|].
  destruct (output_size O 6 initial_world Hx) as (ls & Hrun & Hcount & _).
  exists ls. split; [exact Hrun | exact Hcount].
Defined.

(** *** The loop bound is periodic *)



(** *** Uninitialised memory *)

(** The exit status and the output of [main] do not depend on what
    [malloc] left in the object: two runs on different contents, with the
    same fuel, differ in nothing but the object they leave in the heap. *)
Theorem main_ignores_junk (fuel : nat) (junk junk' : RecursiveMadness) :
  main fuel junk initial_world =
  with_heap [set_depth junk 0] (main fuel junk' initial_world).
Proof.
  unfold main.
  rewrite (bind_done _ _ _ _ _ (new_run junk)).
  rewrite (bind_done _ _ _ _ _ (new_run junk')).
  apply oblivious_bind; [apply oblivious_start|].
  intros _. apply oblivious_ret.
Qed.
